(** * Juju excerpt: container storage config, cloud-init userdata, uniter
      storage accessor, environment teardown and leadership settings.

    The Go sources are embedded as Rocq functions.  Go slices are lists,
    Go maps are finite maps, Go's [(value, error)] results are sums with
    the error on the left, and a Go [panic] is a separate outcome of the
    small execution monad used for the API client code. *)

From Stdlib Require Import ZArith Lia.
From stdpp Require Import base option list strings gmap fin_maps pretty.

Local Open Scope string_scope.
Local Open Scope list_scope.
Local Open Scope Z_scope.

(* ===================================================================== *)
(** * container/storage.go *)
(* ===================================================================== *)

Module container.

(** [storage.ProviderType] is a Go string type. *)
Definition ProviderType : Type := string.

(** [storage.VolumeParams]: the struct is declared in another package;
    [NewStorageConfig] reads its [Provider] field only. *)
Record VolumeParams : Type := { Provider : ProviderType }.

Record StorageConfig : Type := { AllowMount : bool }.

Section NewStorageConfig.

(** [provider.LoopProviderType], a constant of the provider package. *)
Variable LoopProviderType : ProviderType.

(** The body of [for _, v := range volumes]: each round overwrites
    [allowMount] with the comparison and leaves the loop when it is true. *)
Fixpoint range_volumes (allowMount : bool) (volumes : list VolumeParams) : bool :=
  match volumes with
  | [] => allowMount
  | v :: rest =>
      let allowMount := String.eqb (Provider v) LoopProviderType in
      if allowMount then allowMount (* break *) else range_volumes allowMount rest
  end.

Definition NewStorageConfig (volumes : list VolumeParams) : StorageConfig :=
  let allowMount := false in
  {| AllowMount := range_volumes allowMount volumes |}.

End NewStorageConfig.

End container.

(* ===================================================================== *)
(** * api/uniter: StorageAccessor (src/unnamed/part_001) *)
(* ===================================================================== *)

Module uniter.

(** ** apiserver/params: the wire structs the accessor builds and reads *)

Record Error : Type := { Message : string; Code : string }.

Record Entity : Type := { Tag : string }.
Record Entities : Type := { Entities_list : list Entity }.

Record StorageAttachmentId : Type :=
  { StorageTag : string; UnitTag : string }.
Record StorageAttachmentIds : Type := { Ids : list StorageAttachmentId }.

(** The arguments of a facade call, as the accessor passes them. *)
Inductive Args : Type :=
| EntitiesArgs (a : Entities)
| IdsArgs (a : StorageAttachmentIds).

(** Go errors as the accessor makes and forwards them. *)
Inductive error : Type :=
| NotImplementedf (what : string)    (* errors.NotImplementedf *)
| Errorf (msg : string)              (* errors.Errorf, formatted *)
| Trace (err : error)                (* errors.Trace *)
| ServerError (e : Error)            (* a non-nil *params.Error *)
| CallError (msg : string)           (* whatever FacadeCall reports *)
| RuntimeError (msg : string).       (* a Go run-time panic value *)

Record Call : Type := { Request : string; Params : Args }.

Section StorageAccessor.

(** Declared outside the excerpt: the attachment struct, the tags of the
    names package with their [String] methods, and the watcher package. *)
Context {params_StorageAttachment APICaller StringsWatcher NotifyWatcher : Type}.
Context {UnitTagT StorageTagT : Type}.
Context (UnitTag_String : UnitTagT → string).
Context (StorageTag_String : StorageTagT → string).

Record StorageAttachmentsResult : Type :=
  { SAs_Result : list params_StorageAttachment; SAs_Error : option Error }.
Record StorageAttachmentResult : Type :=
  { SA_Result : params_StorageAttachment; SA_Error : option Error }.
Record StringsWatchResult : Type :=
  { StringsWatcherId : string; Changes : list string; SW_Error : option Error }.
Record NotifyWatchResult : Type :=
  { NotifyWatcherId : string; NW_Error : option Error }.
Record ErrorResult : Type := { ER_Error : option Error }.

(** [watcher.NewStringsWatcher] and [watcher.NewNotifyWatcher]. *)
Context (NewStringsWatcher : APICaller → StringsWatchResult → StringsWatcher).
Context (NewNotifyWatcher : APICaller → NotifyWatchResult → NotifyWatcher).

(** Every [...Results] struct is [{ Results []T }]. *)
Record ResultsOf (T : Type) : Type := { Results : list T }.
Global Arguments Results {T} _.

(** The response struct a call decodes into. *)
Inductive ResponseKind : Type :=
| StorageAttachmentsResults
| StringsWatchResults
| StorageAttachmentResults
| NotifyWatchResults
| ErrorResults.

Definition Response (k : ResponseKind) : Type :=
  match k with
  | StorageAttachmentsResults => ResultsOf StorageAttachmentsResult
  | StringsWatchResults => ResultsOf StringsWatchResult
  | StorageAttachmentResults => ResultsOf StorageAttachmentResult
  | NotifyWatchResults => ResultsOf NotifyWatchResult
  | ErrorResults => ResultsOf ErrorResult
  end.

(** [base.FacadeCaller]: the negotiated version, the raw caller, and what
    the remote end answers to a request (given the calls made so far):
    the error [FacadeCall] returns and the decoded response. *)
Record FacadeCaller : Type := {
  BestAPIVersion : Z;
  RawAPICaller : APICaller;
  remote : ∀ k : ResponseKind,
    list Call → string → Args → option error * Response k
}.

Record StorageAccessor : Type := { facade : FacadeCaller }.

Definition NewStorageAccessor (f : FacadeCaller) : StorageAccessor :=
  {| facade := f |}.

(** ** Execution: the log of remote calls, and panics *)

Inductive outcome (A : Type) : Type :=
| Returns (a : A)
| Panics (v : error).
Global Arguments Returns {A} _.
Global Arguments Panics {A} _.

Definition Exec (A : Type) : Type := list Call → outcome A * list Call.

Definition ret {A} (a : A) : Exec A := λ log, (Returns a, log).

Definition panic {A} (v : error) : Exec A := λ log, (Panics v, log).

Definition bind {A B} (m : Exec A) (k : A → Exec B) : Exec B :=
  λ log,
    match m log with
    | (Returns a, log') => k a log'
    | (Panics v, log') => (Panics v, log')
    end.

(** [sa.facade.FacadeCall(request, args, &results)]: one remote call. *)
Definition FacadeCall (f : FacadeCaller) (k : ResponseKind)
    (request : string) (args : Args) : Exec (option error * Response k) :=
  λ log, (Returns (remote f k log request args),
          log ++ [{| Request := request; Params := args |}]).

(** [results.Results[0]]; Go panics on an empty slice. *)
Definition index0 {T} (l : list T) : Exec T :=
  match l with
  | x :: _ => ret x
  | [] => panic (RuntimeError "index out of range")
  end.

(** [errors.Errorf("expected 1 result, got %d", n)] *)
Definition expected1 (n : nat) : error :=
  Errorf ("expected 1 result, got " +:+ pretty n).

Notation "x <- m ;; k" := (bind m (λ x, k))
  (at level 100, m at next level, right associativity).

Definition UnitStorageAttachments (sa : StorageAccessor) (unitTag : UnitTagT)
    : Exec (error + list params_StorageAttachment) :=
  if BestAPIVersion (facade sa) <? 2 then
    ret (inl (NotImplementedf "UnitStorageAttachments() (need V2+)"))
  else
    let args := EntitiesArgs
      {| Entities_list := [ {| Tag := UnitTag_String unitTag |} ] |} in
    r <- FacadeCall (facade sa) StorageAttachmentsResults
           "UnitStorageAttachments" args ;;
    match fst r with
    | Some err => ret (inl (Trace err))
    | None =>
        let results := snd r in
        if negb (length (Results results) =? 1)%nat then
          panic (expected1 (length (Results results)))
        else
          result <- index0 (Results results) ;;
          match SAs_Error result with
          | Some e => ret (inl (ServerError e))
          | None => ret (inr (SAs_Result result))
          end
    end.

Definition WatchUnitStorageAttachments (sa : StorageAccessor) (unitTag : UnitTagT)
    : Exec (error + StringsWatcher) :=
  let args := EntitiesArgs
    {| Entities_list := [ {| Tag := UnitTag_String unitTag |} ] |} in
  r <- FacadeCall (facade sa) StringsWatchResults
         "WatchUnitStorageAttachments" args ;;
  match fst r with
  | Some err => ret (inl err)
  | None =>
      let results := snd r in
      if negb (length (Results results) =? 1)%nat then
        ret (inl (expected1 (length (Results results))))
      else
        result <- index0 (Results results) ;;
        match SW_Error result with
        | Some e => ret (inl (ServerError e))
        | None =>
            let w := NewStringsWatcher (RawAPICaller (facade sa)) result in
            ret (inr w)
        end
  end.

Definition StorageAttachment (sa : StorageAccessor)
    (storageTag : StorageTagT) (unitTag : UnitTagT)
    : Exec (error + params_StorageAttachment) :=
  if BestAPIVersion (facade sa) <? 2 then
    ret (inl (NotImplementedf "StorageAttachment() (need V2+)"))
  else
    let args := IdsArgs
      {| Ids := [ {| StorageTag := StorageTag_String storageTag;
                     UnitTag := UnitTag_String unitTag |} ] |} in
    r <- FacadeCall (facade sa) StorageAttachmentResults
           "StorageAttachments" args ;;
    match fst r with
    | Some err => ret (inl (Trace err))
    | None =>
        let results := snd r in
        if negb (length (Results results) =? 1)%nat then
          panic (expected1 (length (Results results)))
        else
          result <- index0 (Results results) ;;
          match SA_Error result with
          | Some e => ret (inl (ServerError e))
          | None => ret (inr (SA_Result result))
          end
    end.

Definition WatchStorageAttachment (sa : StorageAccessor)
    (storageTag : StorageTagT) (unitTag : UnitTagT)
    : Exec (error + NotifyWatcher) :=
  let args := IdsArgs
    {| Ids := [ {| StorageTag := StorageTag_String storageTag;
                   UnitTag := UnitTag_String unitTag |} ] |} in
  r <- FacadeCall (facade sa) NotifyWatchResults
         "WatchStorageAttachmentInfos" args ;;
  match fst r with
  | Some err => ret (inl err)
  | None =>
      let results := snd r in
      if negb (length (Results results) =? 1)%nat then
        ret (inl (expected1 (length (Results results))))
      else
        result <- index0 (Results results) ;;
        match NW_Error result with
        | Some e => ret (inl (ServerError e))
        | None =>
            let w := NewNotifyWatcher (RawAPICaller (facade sa)) result in
            ret (inr w)
        end
  end.

(** The Go function returns a bare [error]: [None] is [nil]. *)
Definition ensureDeadOrRemoveStorageAttachment (sa : StorageAccessor)
    (method : string) (storageTag : StorageTagT) (unitTag : UnitTagT)
    : Exec (option error) :=
  let args := IdsArgs
    {| Ids := [ {| StorageTag := StorageTag_String storageTag;
                   UnitTag := UnitTag_String unitTag |} ] |} in
  r <- FacadeCall (facade sa) ErrorResults method args ;;
  match fst r with
  | Some err => ret (Some err)
  | None =>
      let results := snd r in
      if negb (length (Results results) =? 1)%nat then
        ret (Some (expected1 (length (Results results))))
      else
        result <- index0 (Results results) ;;
        match ER_Error result with
        | Some e => ret (Some (ServerError e))
        | None => ret None
        end
  end.

Definition EnsureStorageAttachmentDead (sa : StorageAccessor)
    (storageTag : StorageTagT) (unitTag : UnitTagT) : Exec (option error) :=
  ensureDeadOrRemoveStorageAttachment sa
    "EnsureStorageAttachmentsDead" storageTag unitTag.

Definition RemoveStorageAttachment (sa : StorageAccessor)
    (storageTag : StorageTagT) (unitTag : UnitTagT) : Exec (option error) :=
  ensureDeadOrRemoveStorageAttachment sa
    "RemoveStorageAttachments" storageTag unitTag.

(** The arguments and the log entry of each call. *)
Definition unit_args (unitTag : UnitTagT) : Args :=
  EntitiesArgs {| Entities_list := [ {| Tag := UnitTag_String unitTag |} ] |}.

Definition attachment_args (storageTag : StorageTagT) (unitTag : UnitTagT) : Args :=
  IdsArgs {| Ids := [ {| StorageTag := StorageTag_String storageTag;
                         UnitTag := UnitTag_String unitTag |} ] |}.

Definition called (log : list Call) (request : string) (args : Args) : list Call :=
  log ++ [ {| Request := request; Params := args |} ].

End StorageAccessor.

End uniter.

(* ===================================================================== *)
(** * apiserver/client/destroy.go *)
(* ===================================================================== *)

Module client.

Section destroy.

(** Declared outside the excerpt: Go's [error], [instance.Id], the environ
    configuration and the environ, with [errors.Trace], [environs.New] and
    [Environ.StopInstances]. *)
Context {error Id Config Environ : Type}.
Context (Trace : error → error).
Context (environs_New : Config → error + Environ).
Context (StopInstances : Environ → list Id → option error).

(** [*state.Machine], by what its methods answer. *)
Record Machine : Type := {
  IsManager : bool;
  ParentId : string * bool;
  IsManual : bool * option error;
  InstanceId : Id * option error
}.

(** [*state.Environment], by what its methods answer. *)
Record Environment : Type := {
  Destroy : option error;
  UUID : string;
  ServerTag_Id : string
}.

(** [*state.State], by what its methods answer. *)
Record State : Type := {
  state_Environment : error + Environment;
  AllMachines : error + list Machine;
  EnvironConfig : error + Config;
  RemoveAllEnvironDocs : option error
}.

Record Client : Type := {
  check_DestroyAllowed : option error;
  api_state : State
}.

(** The calls that change the world, in the order a run makes them. *)
Inductive Action : Type :=
| CallDestroy                       (* env.Destroy() *)
| CallStopInstances (ids : list Id) (* env.StopInstances(ids...) *)
| CallRemoveAllEnvironDocs.         (* st.RemoveAllEnvironDocs() *)

(** The loop of [destroyInstances]: [inl err] is the early [return err]. *)
Fixpoint range_machines (machines : list Machine) (ids : list Id)
    : error + list Id :=
  match machines with
  | [] => inr ids
  | m :: rest =>
      if IsManager m then range_machines rest ids
      else if snd (ParentId m) then range_machines rest ids
      else
        let '(manual, err) := IsManual m in
        if manual then range_machines rest ids
        else
          match err with
          | Some e => inl e
          | None =>
              let '(id, err) := InstanceId m in
              match err with
              | Some _ => range_machines rest ids
              | None => range_machines rest (ids ++ [id])
              end
          end
  end.

Definition destroyInstances (st : State) (machines : list Machine)
    : option error * list Action :=
  match range_machines machines [] with
  | inl err => (Some err, [])
  | inr ids =>
      if (length ids =? 0)%nat then (None, [])
      else
        match EnvironConfig st with
        | inl err => (Some err, [])
        | inr envcfg =>
            match environs_New envcfg with
            | inl err => (Some err, [])
            | inr env => (StopInstances env ids, [CallStopInstances ids])
            end
        end
  end.

Definition DestroyEnvironment (c : Client) : option error * list Action :=
  match check_DestroyAllowed c with
  | Some err => (Some (Trace err), [])
  | None =>
      match state_Environment (api_state c) with
      | inl err => (Some (Trace err), [])
      | inr env =>
          match Destroy env with
          | Some err => (Some (Trace err), [CallDestroy])
          | None =>
              match AllMachines (api_state c) with
              | inl err => (Some (Trace err), [CallDestroy])
              | inr machines =>
                  let '(err, stopped) := destroyInstances (api_state c) machines in
                  match err with
                  | Some err => (Some (Trace err), CallDestroy :: stopped)
                  | None =>
                      if negb (String.eqb (UUID env) (ServerTag_Id env)) then
                        (Trace <$> RemoveAllEnvironDocs (api_state c),
                         CallDestroy :: stopped ++ [CallRemoveAllEnvironDocs])
                      else (None, CallDestroy :: stopped)
                  end
              end
          end
      end
  end.

(** The machines whose instances [destroyInstances] is meant to stop. *)
Definition stoppable (m : Machine) : bool :=
  negb (IsManager m) && negb (snd (ParentId m)) && negb (fst (IsManual m))
  && match snd (InstanceId m) with None => true | Some _ => false end.

(** The error on which the loop of [destroyInstances] returns at a
    machine: that of [IsManual], when the machine is no manager, no
    container and not reported manual. *)
Definition abort_error (m : Machine) : option error :=
  if IsManager m then None
  else if snd (ParentId m) then None
  else if fst (IsManual m) then None
  else snd (IsManual m).

End destroy.

End client.

(* ===================================================================== *)
(** * package cloudinit: userdata configuration
      (second part of src/container/storage.go) *)
(* ===================================================================== *)

Module userdata.

(** What a run asks of the [*cloudinit.Config] it was given. *)
Inductive ConfCall : Type :=
| AddScripts (scripts : list string)   (* conf.AddScripts(scripts...) *)
| AddRunCmd (cmd : string).            (* conf.AddRunCmd(cmd) *)

Section userdata.

(** Declared outside the excerpt: Go's [error] with the constructors of
    the errors package, [version.OSType] with its two constants and
    [version.GetOSFromSeries], the tag of the names package, the shell
    renderer, the agent configuration with its two methods, the binary
    version with its [String] and [Number], [cloudinit.LogProgressCmd],
    [shquote] and the [agent.AgentServiceName] key. *)
Context {error OSType MachineTag Renderer AgentConfig Binary Number : Type}.
Context `{!EqDecision OSType}.
Context (Ubuntu Windows : OSType).
Context (GetOSFromSeries : string → error + OSType).
Context (NewMachineTag : string → MachineTag).
Context (Tag_String : MachineTag → string).
Context (Trace : error → error).
Context (Annotate : error → string → error).
Context (NotSupportedf : string → error).
Context (FromSlash : Renderer → string → string).
Context (shquote : string → string).
Context (Binary_String : Binary → string).
Context (Binary_Number : Binary → Number).
Context (LogProgressCmd : string → list string → string).
Context (AgentServiceName : string).
Context (SetValue : AgentConfig → string → string → AgentConfig).
Context (WriteCommands : AgentConfig → Renderer → error + list string).

(** The service value [initService] returns, by what its methods answer. *)
Record Service : Type := {
  InstallCommands : error + list string;
  StartCommands : error + list string
}.

(** [*MachineConfig]: the fields read here, and what its methods answer. *)
Record MachineConfig : Type := {
  Series : string;
  MachineId : string;
  Tools_Version : Binary;
  MachineAgentServiceName : string;
  agentConfig : MachineTag → Number → error + AgentConfig;
  initService : Renderer → error + Service;
  toolsDir : Renderer → string
}.

(** [*cloudinit.Config]: its renderer and, in order, what was added. *)
Record Config : Type := {
  ShellRenderer : Renderer;
  added : list ConfCall
}.

Definition conf_add (call : ConfCall) (conf : Config) : Config :=
  {| ShellRenderer := ShellRenderer conf; added := added conf ++ [call] |}.

Record baseConfigure : Type := {
  tag : MachineTag;
  mcfg : MachineConfig;
  conf : Config;
  os : OSType
}.

(** The two implementations of the [UserdataConfig] interface. *)
Inductive UserdataConfig : Type :=
| ubuntuConfigure (base : baseConfigure)
| windowsConfigure (base : baseConfigure).

Definition NewUserdataConfig (mcfg : MachineConfig) (conf : Config)
    : error + UserdataConfig :=
  match GetOSFromSeries (Series mcfg) with
  | inl err => inl err
  | inr operatingSystem =>
      let base :=
        {| tag := NewMachineTag (MachineId mcfg);
           mcfg := mcfg;
           conf := conf;
           os := operatingSystem |} in
      if decide (operatingSystem = Ubuntu) then inr (ubuntuConfigure base)
      else if decide (operatingSystem = Windows) then inr (windowsConfigure base)
      else inl (NotSupportedf ("OS " +:+ Series mcfg))
  end.

Definition toolsSymlinkCommand (c : baseConfigure) (toolsDir : string) : string :=
  if decide (os c = Windows) then
    "cmd.exe /C mklink /D "
      +:+ FromSlash (ShellRenderer (conf c)) toolsDir
      +:+ " " +:+ Binary_String (Tools_Version (mcfg c))
  else
    "ln -s " +:+ Binary_String (Tools_Version (mcfg c))
      +:+ " " +:+ shquote toolsDir.

(** [addAgentInfo]: the agent configuration (or the error) and the
    [conf] as the run leaves it. *)
Definition addAgentInfo (c : baseConfigure) : (error + AgentConfig) * Config :=
  match agentConfig (mcfg c) (tag c) (Binary_Number (Tools_Version (mcfg c))) with
  | inl err => (inl (Trace err), conf c)
  | inr acfg =>
      let acfg :=
        SetValue acfg AgentServiceName (MachineAgentServiceName (mcfg c)) in
      match WriteCommands acfg (ShellRenderer (conf c)) with
      | inl err => (inl (Annotate err "failed to write commands"), conf c)
      | inr cmds => (inr acfg, conf_add (AddScripts cmds) (conf c))
      end
  end.

(** [addMachineAgentToBoot]: the error (or nil) and the [conf] as the run
    leaves it. *)
Definition addMachineAgentToBoot (c : baseConfigure) : option error * Config :=
  match initService (mcfg c) (ShellRenderer (conf c)) with
  | inl err => (Some (Trace err), conf c)
  | inr svc =>
      let toolsDir := toolsDir (mcfg c) (ShellRenderer (conf c)) in
      let conf1 := conf_add (AddScripts [toolsSymlinkCommand c toolsDir]) (conf c) in
      let name := Tag_String (tag c) in
      let complaint :=
        "cannot make cloud-init init script for the " +:+ name +:+ " agent" in
      match InstallCommands svc with
      | inl err => (Some (Annotate err complaint), conf1)
      | inr cmds =>
          match StartCommands svc with
          | inl err => (Some (Annotate err complaint), conf1)
          | inr startCmds =>
              let cmds := cmds ++ startCmds in
              let svcName := MachineAgentServiceName (mcfg c) in
              let conf2 :=
                conf_add
                  (AddRunCmd
                     (LogProgressCmd "Starting Juju machine agent (%s)" [svcName]))
                  conf1 in
              (None, conf_add (AddScripts cmds) conf2)
          end
      end
  end.

End userdata.

End userdata.

(* ===================================================================== *)
(** * Leadership leases and leadership settings

    The feature tests of src/unnamed/part_000 drive the engine through its
    API client ([ClaimLeadership], [ReleaseLeadership],
    [LeadershipSettings.Merge], [LeadershipSettings.Read]); the engine
    itself lies outside the excerpt and is modelled here from the
    specification (sections 3, 4.1 and 4.3). *)
(* ===================================================================== *)

Module leadership.

(** Modelled from the spec: the error taxonomy of section 7, with the
    [NotFound] answer of [CurrentToken] (section 4.1).  The engine's source
    is missing from the excerpt. *)
Inductive Error : Type :=
| AlreadyClaimed
| NotLeader
| StoreUnavailable
| ProtocolUnsupported
| NotFound.

(** Modelled from the spec: the fencing token is a [uint64]; a "freshly
    incremented" token is the next one, computed in 64 bits. *)
Definition uint64_modulus : N := 2 ^ 64.

Definition next_token (t : N) : N := ((t + 1) mod uint64_modulus)%N.

(** Modelled from the spec: the persisted lease record of section 6,
    [{holder, token, expiry}] keyed by resource.  A release marks the
    record unclaimed ([released]) and keeps its token, so that the next
    claim increments it. *)
Record Lease : Type := {
  holderID : string;
  token : N;
  expiry : Z;
  released : bool
}.

(** Modelled from the spec: the settings record of section 3,
    [{values, token}] keyed by resource. *)
Record SettingsRecord : Type := {
  values : gmap string string;
  settings_token : N
}.

(** Modelled from the spec: the two kinds of records are the only mutable
    shared state (section 5). *)
Record Store : Type := {
  leases : gmap string Lease;
  settings : gmap string SettingsRecord
}.

(** Modelled from the spec: the store before any claim or merge. *)
Definition empty_store : Store := {| leases := ∅; settings := ∅ |}.

(** Modelled from the spec: "a lease is valid iff now < expiry"; a released
    lease is unclaimed whatever its expiry. *)
Definition lease_valid (l : Lease) (now : Z) : bool :=
  negb (released l) && (now <? expiry l).

(** Modelled from the spec: [IsValid(resourceID)] of section 4.1. *)
Definition IsValid (resourceID : string) (now : Z) (s : Store) : bool :=
  match leases s !! resourceID with
  | Some l => lease_valid l now
  | None => false
  end.

(** Modelled from the spec: [CurrentToken(resourceID)] of section 4.1. *)
Definition CurrentToken (resourceID : string) (s : Store) : Error + N :=
  match leases s !! resourceID with
  | Some l => inr (token l)
  | None => inl NotFound
  end.

(** Modelled from the spec: [holderID] "currently holds a valid lease on
    resourceID" (sections 4.1 and 4.3). *)
Definition is_leader (resourceID holderID' : string) (now : Z) (s : Store) : bool :=
  match leases s !! resourceID with
  | Some l => lease_valid l now && String.eqb (holderID l) holderID'
  | None => false
  end.

(** Modelled from the spec: the atomic update of one lease record. *)
Definition set_lease (resourceID : string) (l : Lease) (s : Store) : Store :=
  {| leases := <[resourceID := l]> (leases s); settings := settings s |}.

(** Modelled from the spec: [Claim(resourceID, holderID, duration)] of
    section 4.1.  Without a valid lease it creates one with the next token
    and [expiry = now + duration]; against another holder's valid lease it
    fails with [AlreadyClaimed]; for the holder of the valid lease it is a
    renewal, which moves the expiry and keeps the token. *)
Definition Claim (resourceID holderID' : string) (duration now : Z) (s : Store)
    : (Error + N * Z) * Store :=
  match leases s !! resourceID with
  | Some l =>
      if lease_valid l now then
        if String.eqb (holderID l) holderID' then
          (inr (token l, now + duration),
           set_lease resourceID
             {| holderID := holderID l; token := token l;
                expiry := now + duration; released := false |} s)
        else (inl AlreadyClaimed, s)
      else
        let t := next_token (token l) in
        (inr (t, now + duration),
         set_lease resourceID
           {| holderID := holderID'; token := t;
              expiry := now + duration; released := false |} s)
  | None =>
      let t := next_token 0 in
      (inr (t, now + duration),
       set_lease resourceID
         {| holderID := holderID'; token := t;
            expiry := now + duration; released := false |} s)
  end.

(** Modelled from the spec: [Release(resourceID, holderID)] of section
    4.1.  The current valid holder's release makes the resource unclaimed;
    any other release is a no-op that succeeds. *)
Definition Release (resourceID holderID' : string) (now : Z) (s : Store)
    : option Error * Store :=
  match leases s !! resourceID with
  | Some l =>
      if lease_valid l now && String.eqb (holderID l) holderID' then
        (None,
         set_lease resourceID
           {| holderID := holderID l; token := token l;
              expiry := expiry l; released := true |} s)
      else (None, s)
  | None => (None, s)
  end.

(** Modelled from the spec: [Read(resourceID)] of section 4.3: the current
    map, and the empty map for a resource without a settings record. *)
Definition Read (resourceID : string) (s : Store) : gmap string string :=
  match settings s !! resourceID with
  | Some rec => values rec
  | None => ∅
  end.

(** Modelled from the spec: one key of a merge (section 4.3): a key of the
    delta with the empty string is deleted, any other key of the delta is
    inserted or overwritten, a key outside the delta is kept. *)
Definition merge_key (stored change : option string) : option string :=
  match change with
  | Some v => if String.eqb v "" then None else Some v
  | None => stored
  end.

(** Modelled from the spec: the delta applied "key-by-key onto the existing
    map". *)
Definition apply_delta (stored delta : gmap string string) : gmap string string :=
  merge merge_key stored delta.

(** Modelled from the spec: [Merge(resourceID, holderID, delta)] of
    section 4.3.  A caller that is not the valid lease holder gets
    [NotLeader] and the store stays as it is; the leader's delta is applied
    key by key and the record takes the token of the authorising lease. *)
Definition Merge (resourceID holderID' : string) (delta : gmap string string)
    (now : Z) (s : Store) : option Error * Store :=
  match leases s !! resourceID with
  | Some l =>
      if lease_valid l now && String.eqb (holderID l) holderID' then
        (None,
         {| leases := leases s;
            settings :=
              <[resourceID :=
                  {| values := apply_delta (Read resourceID s) delta;
                     settings_token := token l |}]> (settings s) |})
      else (Some NotLeader, s)
  | None => (Some NotLeader, s)
  end.

End leadership.

(* ===================================================================== *)
(** * Concrete instances used to exercise the properties *)
(* ===================================================================== *)

Module fixtures.
Import uniter leadership.

(** A small fleet: a manager, a container, a manual machine, a machine
    without an instance id, and two plain machines.  Errors and instance
    ids are strings; the environ always opens and stops what it is asked. *)
Definition fleet : list (@client.Machine string string) :=
  [ {| client.IsManager := true; client.ParentId := ("", false);
       client.IsManual := (false, None); client.InstanceId := ("i-0", None) |};
    {| client.IsManager := false; client.ParentId := ("1", true);
       client.IsManual := (false, None); client.InstanceId := ("i-1", None) |};
    {| client.IsManager := false; client.ParentId := ("", false);
       client.IsManual := (true, None); client.InstanceId := ("i-2", None) |};
    {| client.IsManager := false; client.ParentId := ("", false);
       client.IsManual := (false, None);
       client.InstanceId := ("", Some "not provisioned") |};
    {| client.IsManager := false; client.ParentId := ("", false);
       client.IsManual := (false, None); client.InstanceId := ("i-4", None) |};
    {| client.IsManager := false; client.ParentId := ("", false);
       client.IsManual := (false, None); client.InstanceId := ("i-5", None) |} ].

(** A machine whose [IsManual] fails. *)
Definition unknown_machine : @client.Machine string string :=
  {| client.IsManager := false; client.ParentId := ("", false);
     client.IsManual := (false, Some "cannot tell");
     client.InstanceId := ("i-6", None) |}.

Definition hosted_state : @client.State string string unit :=
  {| client.state_Environment :=
       inr {| client.Destroy := None; client.UUID := "hosted-uuid";
              client.ServerTag_Id := "server-uuid" |};
     client.AllMachines := inr fleet;
     client.EnvironConfig := inr tt;
     client.RemoveAllEnvironDocs := None |}.

Definition trace (err : string) : string := "traced: " +:+ err.

Definition open_environ (cfg : unit) : string + unit := inr tt.

Definition stop_all (env : unit) (ids : list string) : option string := None.

Definition blocked_client : @client.Client string string unit :=
  {| client.check_DestroyAllowed := Some "destroy-environment is blocked";
     client.api_state := hosted_state |}.

Definition hosted_client : @client.Client string string unit :=
  {| client.check_DestroyAllowed := None;
     client.api_state := hosted_state |}.

(** A facade over trivial tag and watcher types that answers every call
    with a response holding no results. *)
Definition no_results (k : ResponseKind)
    : option error * @Response unit k :=
  match k with
  | StorageAttachmentsResults => (None, {| Results := [] |})
  | StringsWatchResults => (None, {| Results := [] |})
  | StorageAttachmentResults => (None, {| Results := [] |})
  | NotifyWatchResults => (None, {| Results := [] |})
  | ErrorResults => (None, {| Results := [] |})
  end.

Definition silent_facade (version : Z) : @FacadeCaller unit unit :=
  {| BestAPIVersion := version;
     RawAPICaller := tt;
     remote := λ k _ _ _, no_results k |}.

Definition tag_string (t : string) : string := t.

Definition v2_accessor : @StorageAccessor unit unit :=
  NewStorageAccessor (silent_facade 2).

(** A facade at version 2 that answers every call with one result free
    of errors; attachments are plain strings here. *)
Definition one_result (k : ResponseKind)
    : option error * @Response string k :=
  match k with
  | StorageAttachmentsResults =>
      (None, {| Results := [ {| SAs_Result := ["data/0"]; SAs_Error := None |} ] |})
  | StringsWatchResults =>
      (None, {| Results := [ {| StringsWatcherId := "1"; Changes := ["data/0"];
                                SW_Error := None |} ] |})
  | StorageAttachmentResults =>
      (None, {| Results := [ {| SA_Result := "data/0"; SA_Error := None |} ] |})
  | NotifyWatchResults =>
      (None, {| Results := [ {| NotifyWatcherId := "2"; NW_Error := None |} ] |})
  | ErrorResults =>
      (None, {| Results := [ {| ER_Error := None |} ] |})
  end.

Definition serving_accessor : @StorageAccessor string unit :=
  NewStorageAccessor
    {| BestAPIVersion := 2;
       RawAPICaller := tt;
       remote := λ k _ _ _, one_result k |}.

(** The store of the feature tests after their first step: on a fresh
    store, unit wordpress/0 claims the leadership of service wordpress for
    ten seconds at time 0. *)
Definition elected : Store :=
  snd (Claim "wordpress" "wordpress/0" 10 0 empty_store).

End fixtures.

(* ===================================================================== *)
(** * Properties: container/storage.go *)
(* ===================================================================== *)

Section container_properties.
Import container.

Variable Loop : ProviderType.

Lemma range_volumes_true_iff (b : bool) (volumes : list VolumeParams) :
  range_volumes Loop b volumes = true ↔
  (∃ v, v ∈ volumes ∧ Provider v = Loop) ∨ (volumes = [] ∧ b = true).
Proof.
  revert b. induction volumes as [|v rest IH]; intros b; simpl.
  - split.
    + intros ->. by right.
    + intros [(v & Hv & _)|[_ ->]]; [by apply elem_of_nil in Hv | done].
  - destruct (String.eqb (Provider v) Loop) eqn:E.
    + apply String.eqb_eq in E. split; [|done].
      intros _. left. exists v. split; [apply list_elem_of_here | done].
    + apply String.eqb_neq in E. rewrite IH. split.
      * intros [(w & Hw & HL)|[-> ?]]; [|done].
        left. exists w. split; [by apply list_elem_of_further | done].
      * intros [(w & Hw & HL)|[? _]]; [|done].
        apply elem_of_cons in Hw as [->|Hw]; [done|].
        left. by exists w.
Qed.

(** C9.  [NewStorageConfig volumes] has [AllowMount] true exactly when some
    element of [volumes] has the loop provider; so it is false for the
    empty slice, and true wherever in the slice the loop volume stands. *)
Theorem NewStorageConfig_AllowMount (volumes : list VolumeParams) :
  (AllowMount (NewStorageConfig Loop volumes) = true ↔
     ∃ v, v ∈ volumes ∧ Provider v = Loop)
  ∧ AllowMount (NewStorageConfig Loop []) = false
  ∧ (∀ before after : list VolumeParams,
       AllowMount (NewStorageConfig Loop
         (before ++ {| Provider := Loop |} :: after)) = true).
Proof.
  split; [|split].
  - unfold NewStorageConfig; simpl. rewrite range_volumes_true_iff.
    split; [|by left]. by intros [?|[_ ?]].
  - reflexivity.
  - intros before after. unfold NewStorageConfig; simpl.
    apply range_volumes_true_iff. left.
    exists {| Provider := Loop |}. split; [|done].
    apply elem_of_app. right. apply list_elem_of_here.
Qed.

End container_properties.

(* ===================================================================== *)
(** * Properties: api/uniter StorageAccessor *)
(* ===================================================================== *)

Section uniter_properties.
Import uniter.

Context {params_StorageAttachment APICaller StringsWatcher NotifyWatcher : Type}.
Context {UnitTagT StorageTagT : Type}.
Context (UnitTag_String : UnitTagT → string).
Context (StorageTag_String : StorageTagT → string).
Context (NewStringsWatcher :
  APICaller → StringsWatchResult → StringsWatcher).
Context (NewNotifyWatcher :
  APICaller → NotifyWatchResult → NotifyWatcher).

Local Abbreviation Accessor :=
  (@StorageAccessor params_StorageAttachment APICaller).

(** C8.  With a facade whose best version is below 2, both gated
    operations return the not-implemented error at once: the result is
    that error and the log of remote calls is the one they started with. *)
Theorem gated_operations_fail_fast
    (sa : Accessor) (storageTag : StorageTagT) (unitTag : UnitTagT)
    (log : list Call) :
  BestAPIVersion (facade sa) < 2 →
  UnitStorageAttachments UnitTag_String sa unitTag log
    = (Returns (inl (NotImplementedf "UnitStorageAttachments() (need V2+)")),
       log)
  ∧ StorageAttachment UnitTag_String StorageTag_String sa storageTag unitTag log
    = (Returns (inl (NotImplementedf "StorageAttachment() (need V2+)")),
       log).
Proof.
  intros Hv. apply Z.ltb_lt in Hv.
  unfold UnitStorageAttachments, StorageAttachment. by rewrite Hv.
Qed.

Lemma length_neq_1 {T} (l : list T) :
  length l ≠ 1%nat → negb (length l =? 1)%nat = true.
Proof. intros H. apply negb_true_iff, Nat.eqb_neq, H. Qed.

(** C10.  When the facade call itself succeeds but its response holds a
    number of results other than one, [UnitStorageAttachments] and
    [StorageAttachment] (reached at version 2 or later) panic, while
    [WatchUnitStorageAttachments] and [ensureDeadOrRemoveStorageAttachment]
    (so [EnsureStorageAttachmentDead] and [RemoveStorageAttachment]) return
    the same complaint as an error value. *)
Theorem malformed_response_panic_or_error
    (sa : Accessor) (storageTag : StorageTagT) (unitTag : UnitTagT)
    (method : string) (log : list Call) :
  (∀ results,
     2 ≤ BestAPIVersion (facade sa) →
     remote (facade sa) StorageAttachmentsResults log
       "UnitStorageAttachments" (unit_args UnitTag_String unitTag)
       = (None, results) →
     length (Results results) ≠ 1%nat →
     UnitStorageAttachments UnitTag_String sa unitTag log
       = (Panics (expected1 (length (Results results))),
          called log "UnitStorageAttachments" (unit_args UnitTag_String unitTag)))
  ∧ (∀ results,
     2 ≤ BestAPIVersion (facade sa) →
     remote (facade sa) StorageAttachmentResults log
       "StorageAttachments"
       (attachment_args UnitTag_String StorageTag_String storageTag unitTag)
       = (None, results) →
     length (Results results) ≠ 1%nat →
     StorageAttachment UnitTag_String StorageTag_String sa storageTag unitTag log
       = (Panics (expected1 (length (Results results))),
          called log "StorageAttachments"
            (attachment_args UnitTag_String StorageTag_String storageTag unitTag)))
  ∧ (∀ results,
     remote (facade sa) StringsWatchResults log
       "WatchUnitStorageAttachments" (unit_args UnitTag_String unitTag)
       = (None, results) →
     length (Results results) ≠ 1%nat →
     WatchUnitStorageAttachments UnitTag_String NewStringsWatcher sa unitTag log
       = (Returns (inl (expected1 (length (Results results)))),
          called log "WatchUnitStorageAttachments"
            (unit_args UnitTag_String unitTag)))
  ∧ (∀ results,
     remote (facade sa) ErrorResults log
       method
       (attachment_args UnitTag_String StorageTag_String storageTag unitTag)
       = (None, results) →
     length (Results results) ≠ 1%nat →
     ensureDeadOrRemoveStorageAttachment UnitTag_String StorageTag_String
       sa method storageTag unitTag log
       = (Returns (Some (expected1 (length (Results results)))),
          called log method
            (attachment_args UnitTag_String StorageTag_String storageTag unitTag)))
  ∧ EnsureStorageAttachmentDead UnitTag_String StorageTag_String
      sa storageTag unitTag
    = ensureDeadOrRemoveStorageAttachment UnitTag_String StorageTag_String
        sa "EnsureStorageAttachmentsDead" storageTag unitTag
  ∧ RemoveStorageAttachment UnitTag_String StorageTag_String
      sa storageTag unitTag
    = ensureDeadOrRemoveStorageAttachment UnitTag_String StorageTag_String
        sa "RemoveStorageAttachments" storageTag unitTag.
Proof.
  repeat split; intros results.
  - intros Hv Hr Hn. apply Z.ltb_ge in Hv. apply length_neq_1 in Hn.
    unfold UnitStorageAttachments, bind, FacadeCall, unit_args in *.
    rewrite Hv, Hr. simpl. by rewrite Hn.
  - intros Hv Hr Hn. apply Z.ltb_ge in Hv. apply length_neq_1 in Hn.
    unfold StorageAttachment, bind, FacadeCall, attachment_args in *.
    rewrite Hv, Hr. simpl. by rewrite Hn.
  - intros Hr Hn. apply length_neq_1 in Hn.
    unfold WatchUnitStorageAttachments, bind, FacadeCall, unit_args in *.
    rewrite Hr. simpl. by rewrite Hn.
  - intros Hr Hn. apply length_neq_1 in Hn.
    unfold ensureDeadOrRemoveStorageAttachment, bind, FacadeCall,
      attachment_args in *.
    rewrite Hr. simpl. by rewrite Hn.
Qed.

(** X4.  At version 2 or later [UnitStorageAttachments] makes exactly one
    remote call, for the unit's tag alone, and its result follows the
    answer: a call error is returned traced, a single result gives its
    error or its attachments, any other number of results panics. *)
Theorem UnitStorageAttachments_v2
    (sa : Accessor) (unitTag : UnitTagT) (log : list Call) :
  2 ≤ BestAPIVersion (facade sa) →
  snd (UnitStorageAttachments UnitTag_String sa unitTag log)
    = called log "UnitStorageAttachments" (unit_args UnitTag_String unitTag)
  ∧ fst (UnitStorageAttachments UnitTag_String sa unitTag log)
    = match remote (facade sa) StorageAttachmentsResults log
              "UnitStorageAttachments" (unit_args UnitTag_String unitTag) with
      | (Some err, _) => Returns (inl (Trace err))
      | (None, {| Results := [result] |}) =>
          match SAs_Error result with
          | Some e => Returns (inl (ServerError e))
          | None => Returns (inr (SAs_Result result))
          end
      | (None, results) => Panics (expected1 (length (Results results)))
      end.
Proof.
  intros Hv. apply Z.ltb_ge in Hv.
  unfold UnitStorageAttachments, bind, FacadeCall, called, unit_args.
  rewrite Hv.
  destruct (remote _ _ _ _ _) as [[err|] [[|result [|more]]]]; simpl; try done.
  by destruct (SAs_Error result).
Qed.

(** X5.  [ensureDeadOrRemoveStorageAttachment] makes exactly one remote call,
    of the method it is given, and returns nil exactly when that call
    succeeded with a single result that carries no error. *)
Theorem ensureDeadOrRemoveStorageAttachment_nil
    (sa : Accessor) (method : string)
    (storageTag : StorageTagT) (unitTag : UnitTagT) (log : list Call) :
  snd (ensureDeadOrRemoveStorageAttachment UnitTag_String StorageTag_String
         sa method storageTag unitTag log)
    = called log method
        (attachment_args UnitTag_String StorageTag_String storageTag unitTag)
  ∧ (fst (ensureDeadOrRemoveStorageAttachment UnitTag_String StorageTag_String
            sa method storageTag unitTag log) = Returns None
     ↔ remote (facade sa) ErrorResults log method
         (attachment_args UnitTag_String StorageTag_String storageTag unitTag)
       = (None, {| Results := [ {| ER_Error := None |} ] |})).
Proof.
  unfold ensureDeadOrRemoveStorageAttachment, bind, FacadeCall, called,
    attachment_args.
  destruct (remote _ _ _ _ _) as [[err|] [[|[[e|]] [|more]]]]; simpl;
    (split; [done|]); split; intros H; try done; by inversion H.
Qed.

End uniter_properties.

Section uniter_witnesses.
Import uniter fixtures.

Lemma gated_operations_fail_fast_witness :
  UnitStorageAttachments tag_string
      (NewStorageAccessor (silent_facade 1)) "unit-wordpress-0" []
    = (Returns (inl (NotImplementedf "UnitStorageAttachments() (need V2+)")), [])
  ∧ StorageAttachment tag_string tag_string
      (NewStorageAccessor (silent_facade 1)) "storage-data-0" "unit-wordpress-0" []
    = (Returns (inl (NotImplementedf "StorageAttachment() (need V2+)")), []).
Proof.
  apply (gated_operations_fail_fast tag_string tag_string
           (NewStorageAccessor (silent_facade 1))).
  simpl. lia.
Defined.


Example expected1_renders : expected1 0 = Errorf "expected 1 result, got 0"
  ∧ expected1 12 = Errorf "expected 1 result, got 12".
Proof. split; vm_compute; reflexivity. Qed.

Lemma malformed_response_witness :
  UnitStorageAttachments tag_string v2_accessor "unit-wordpress-0" []
    = (Panics (Errorf "expected 1 result, got 0"),
       [ {| Request := "UnitStorageAttachments";
            Params := unit_args tag_string "unit-wordpress-0" |} ])
  ∧ StorageAttachment tag_string tag_string v2_accessor
      "storage-data-0" "unit-wordpress-0" []
    = (Panics (Errorf "expected 1 result, got 0"),
       [ {| Request := "StorageAttachments";
            Params := attachment_args tag_string tag_string
                        "storage-data-0" "unit-wordpress-0" |} ])
  ∧ WatchUnitStorageAttachments tag_string (λ _ _, tt) v2_accessor
      "unit-wordpress-0" []
    = (Returns (inl (Errorf "expected 1 result, got 0")),
       [ {| Request := "WatchUnitStorageAttachments";
            Params := unit_args tag_string "unit-wordpress-0" |} ])
  ∧ ensureDeadOrRemoveStorageAttachment tag_string tag_string v2_accessor
      "RemoveStorageAttachments" "storage-data-0" "unit-wordpress-0" []
    = (Returns (Some (Errorf "expected 1 result, got 0")),
       [ {| Request := "RemoveStorageAttachments";
            Params := attachment_args tag_string tag_string
                        "storage-data-0" "unit-wordpress-0" |} ]).
Proof.
  destruct (malformed_response_panic_or_error tag_string tag_string
              (λ _ _, tt) v2_accessor "storage-data-0" "unit-wordpress-0"
              "RemoveStorageAttachments" [])
    as (H1 & H2 & H3 & H4 & _ & _).
  split; [|split; [|split]].
  - apply (H1 {| Results := [] |}).
    + simpl. lia.
    + reflexivity.
    + simpl. lia.
  - apply (H2 {| Results := [] |}).
    + simpl. lia.
    + reflexivity.
    + simpl. lia.
  - apply (H3 {| Results := [] |}).
    + reflexivity.
    + simpl. lia.
  - apply (H4 {| Results := [] |}).
    + reflexivity.
    + simpl. lia.
Defined.

Lemma UnitStorageAttachments_v2_witness :
  2 ≤ BestAPIVersion (facade v2_accessor)
  ∧ snd (UnitStorageAttachments tag_string v2_accessor "unit-wordpress-0" [])
    = [ {| Request := "UnitStorageAttachments";
           Params := unit_args tag_string "unit-wordpress-0" |} ].
Proof.
  assert (2 ≤ BestAPIVersion (facade v2_accessor)) as H by (simpl; lia).
  exact (conj H (proj1 (UnitStorageAttachments_v2 tag_string v2_accessor
                          "unit-wordpress-0" [] H))).
Defined.

End uniter_witnesses.

(* ===================================================================== *)
(** * Properties: leadership settings *)
(* ===================================================================== *)

Section client_properties.
Import client.

Context {error Id Config Environ : Type}.
Context (Trace : error → error).
Context (environs_New : Config → error + Environ).
Context (StopInstances : Environ → list Id → option error).

Local Abbreviation Machine := (@Machine error Id).
Local Abbreviation State := (@State error Id Config).



Lemma destroyInstances_actions (st : State) (machines : list Machine) :
  snd (destroyInstances environs_New StopInstances st machines) = []
  ∨ ∃ ids, snd (destroyInstances environs_New StopInstances st machines)
           = [CallStopInstances ids].
Proof.
  unfold destroyInstances.
  destruct (range_machines machines []) as [err|ids]; [by left|].
  destruct (length ids =? 0)%nat; [by left|].
  destruct (EnvironConfig st) as [err|envcfg]; [by left|].
  destruct (environs_New envcfg) as [err|env]; [by left|].
  right. by exists ids.
Qed.

(** When [DestroyAllowed] refuses, [DestroyEnvironment] returns that error
    (traced) and has called nothing that changes the world. *)
Lemma DestroyEnvironment_blocked (c : @Client error Id Config) (err : error) :
  check_DestroyAllowed c = Some err →
  DestroyEnvironment Trace environs_New StopInstances c = (Some (Trace err), []).
Proof. intros H. unfold DestroyEnvironment. by rewrite H. Qed.

(** X3.  [RemoveAllEnvironDocs] is called only for an environment whose UUID
    differs from the state server's, after every earlier step succeeded,
    and its (traced) answer is then the result. *)
Theorem DestroyEnvironment_removes_docs (c : @Client error Id Config) :
  CallRemoveAllEnvironDocs
    ∈ snd (DestroyEnvironment Trace environs_New StopInstances c) →
  ∃ env machines,
    check_DestroyAllowed c = None
    ∧ state_Environment (api_state c) = inr env
    ∧ Destroy env = None
    ∧ AllMachines (api_state c) = inr machines
    ∧ fst (destroyInstances environs_New StopInstances (api_state c) machines)
      = None
    ∧ UUID env ≠ ServerTag_Id env
    ∧ fst (DestroyEnvironment Trace environs_New StopInstances c)
      = Trace <$> RemoveAllEnvironDocs (api_state c).
Proof.
  unfold DestroyEnvironment.
  destruct (check_DestroyAllowed c) as [e|]; simpl.
  { intros H. by apply elem_of_nil in H. }
  destruct (state_Environment (api_state c)) as [e|env]; simpl.
  { intros H. by apply elem_of_nil in H. }
  destruct (Destroy env) as [e|] eqn:HD; simpl.
  { intros H. by apply list_elem_of_singleton in H. }
  destruct (AllMachines (api_state c)) as [e|machines]; simpl.
  { intros H. by apply list_elem_of_singleton in H. }
  pose proof (destroyInstances_actions (api_state c) machines) as Hacts.
  destruct (destroyInstances environs_New StopInstances (api_state c) machines)
    as [r stopped] eqn:HDI; simpl in *.
  assert (CallRemoveAllEnvironDocs ∉ CallDestroy :: stopped) as Hnot.
  { intros H. apply elem_of_cons in H as [H|H]; [done|].
    destruct Hacts as [->|[ids ->]]; [by apply elem_of_nil in H|].
    by apply list_elem_of_singleton in H. }
  destruct r as [e|]; simpl; [done|].
  destruct (String.eqb (UUID env) (ServerTag_Id env)) eqn:HU; simpl; [done|].
  intros _. exists env, machines. apply String.eqb_neq in HU.
  rewrite HDI. repeat split; try reflexivity; assumption.
Qed.

End client_properties.

Section client_witnesses.
Import client fixtures.


Lemma DestroyEnvironment_removes_docs_witness :
  snd (DestroyEnvironment trace open_environ stop_all hosted_client)
    = [CallDestroy; CallStopInstances ["i-4"; "i-5"]; CallRemoveAllEnvironDocs]
  ∧ ∃ env machines,
      check_DestroyAllowed hosted_client = None
      ∧ state_Environment (api_state hosted_client) = inr env
      ∧ Destroy env = None
      ∧ AllMachines (api_state hosted_client) = inr machines
      ∧ fst (destroyInstances open_environ stop_all
               (api_state hosted_client) machines) = None
      ∧ UUID env ≠ ServerTag_Id env
      ∧ fst (DestroyEnvironment trace open_environ stop_all hosted_client)
        = trace <$> RemoveAllEnvironDocs (api_state hosted_client).
Proof.
  split; [vm_compute; reflexivity|].
  apply (DestroyEnvironment_removes_docs trace open_environ stop_all
           hosted_client).
  vm_compute. do 2 apply list_elem_of_further. apply list_elem_of_here.
Defined.

End client_witnesses.

Section leadership_properties.
Import leadership.

Implicit Types (s : Store) (r h k : string) (delta : gmap string string).
Implicit Types (now : Z).

Lemma Read_absent s r : settings s !! r = None → Read r s = ∅.
Proof. intros H. unfold Read. by rewrite H. Qed.

Lemma lookup_apply_delta (stored delta : gmap string string) k :
  apply_delta stored delta !! k = merge_key (stored !! k) (delta !! k).
Proof.
  unfold apply_delta. rewrite lookup_merge.
  by destruct (stored !! k), (delta !! k).
Qed.

(** Who is not the leader: there is no lease record, or the lease was
    released, or it has expired, or it belongs to another holder. *)
Lemma is_leader_false_iff s r h now :
  is_leader r h now s = false ↔
  leases s !! r = None
  ∨ ∃ l, leases s !! r = Some l
         ∧ (released l = true ∨ expiry l ≤ now ∨ holderID l ≠ h).
Proof.
  unfold is_leader, lease_valid.
  destruct (leases s !! r) as [l|]; [|split; [by left|done]].
  rewrite !andb_false_iff, negb_false_iff, Z.ltb_ge, String.eqb_neq.
  split.
  - intros H. right. exists l. split; [done|]. tauto.
  - intros [?|(l' & [= <-] & H)]; [done|]. tauto.
Qed.

(** A claim that succeeds makes the claimant the leader until the expiry
    it returns; the leader's release ends that at once. *)
Lemma is_leader_Claim s r h duration now tok exp now' :
  fst (Claim r h duration now s) = inr (tok, exp) →
  is_leader r h now' (snd (Claim r h duration now s)) = bool_decide (now' < exp).
Proof.
  unfold Claim, is_leader, set_lease.
  destruct (leases s !! r) as [l|]; [destruct (lease_valid l now)|];
    [destruct (String.eqb (holderID l) h) eqn:Hh|..]; simpl; try done;
    intros [= <- <-]; rewrite lookup_insert_eq; unfold lease_valid; simpl;
    rewrite ?Hh, ?String.eqb_refl, andb_true_r;
    destruct (Z.ltb_spec now' (now + duration));
    by rewrite ?bool_decide_eq_true_2, ?bool_decide_eq_false_2 by lia.
Qed.

Lemma is_leader_Release s r h now now' :
  is_leader r h now s = true →
  fst (Release r h now s) = None
  ∧ is_leader r h now' (snd (Release r h now s)) = false.
Proof.
  unfold Release, is_leader, set_lease.
  destruct (leases s !! r) as [l|]; [|done]. intros ->. simpl.
  by rewrite lookup_insert_eq.
Qed.

Lemma Merge_leader s r h delta now :
  is_leader r h now s = true →
  ∃ l, leases s !! r = Some l ∧
    Merge r h delta now s =
      (None,
       {| leases := leases s;
          settings := <[r := {| values := apply_delta (Read r s) delta;
                                settings_token := token l |}]> (settings s) |}).
Proof.
  unfold is_leader, Merge. destruct (leases s !! r) as [l|]; [|done].
  intros ->. by exists l.
Qed.

Lemma Read_Merge_leader s r h delta now :
  is_leader r h now s = true →
  fst (Merge r h delta now s) = None
  ∧ Read r (snd (Merge r h delta now s)) = apply_delta (Read r s) delta
  ∧ leases (snd (Merge r h delta now s)) = leases s.
Proof.
  intros H. destruct (Merge_leader s r h delta now H) as (l & _ & ->).
  simpl. unfold Read at 1. simpl. by rewrite lookup_insert_eq.
Qed.

Lemma is_leader_Merge s r h delta now r' h' now' :
  is_leader r h now s = true →
  is_leader r' h' now' (snd (Merge r h delta now s)) = is_leader r' h' now' s.
Proof.
  intros H. destruct (Read_Merge_leader s r h delta now H) as (_ & _ & Hl).
  unfold is_leader. by rewrite Hl.
Qed.

Lemma Merge_not_leader s r h delta now :
  is_leader r h now s = false → Merge r h delta now s = (Some NotLeader, s).
Proof.
  unfold is_leader, Merge. destruct (leases s !! r) as [l|]; [|done].
  by intros ->.
Qed.

Lemma apply_delta_empty_nonempty :
  apply_delta ∅ {[ "foo" := "bar"; "baz" := "biz" ]}
    = {[ "foo" := "bar"; "baz" := "biz" ]}
  ∧ apply_delta {[ "foo" := "bar"; "baz" := "biz" ]} {[ "foo" := "" ]}
    = {[ "baz" := "biz" ]}.
Proof. split; by vm_compute. Qed.

(** C4.  A merge by the current leader succeeds and updates the stored map
    key by key: a key the delta maps to the empty string is gone, any other
    key of the delta has the delta's value, every other key keeps its
    value.  On a resource without settings, merging foo=bar, baz=biz makes
    [Read] return exactly that map, and then merging foo="" makes [Read]
    return baz=biz alone.  [Read] of a resource without a settings record
    is the empty map. *)
Theorem Merge_Read_semantics s r h delta now now2 :
  is_leader r h now s = true →
  is_leader r h now2 s = true →
  (fst (Merge r h delta now s) = None
   ∧ ∀ k, Read r (snd (Merge r h delta now s)) !! k =
       match delta !! k with
       | Some v => if decide (v = "") then None else Some v
       | None => Read r s !! k
       end)
  ∧ (Read r s = ∅ →
     fst (Merge r h {[ "foo" := "bar"; "baz" := "biz" ]} now s) = None
     ∧ Read r (snd (Merge r h {[ "foo" := "bar"; "baz" := "biz" ]} now s))
       = {[ "foo" := "bar"; "baz" := "biz" ]}
     ∧ fst (Merge r h {[ "foo" := "" ]} now2
         (snd (Merge r h {[ "foo" := "bar"; "baz" := "biz" ]} now s))) = None
     ∧ Read r (snd (Merge r h {[ "foo" := "" ]} now2
         (snd (Merge r h {[ "foo" := "bar"; "baz" := "biz" ]} now s))))
       = {[ "baz" := "biz" ]})
  ∧ (∀ s' r', settings s' !! r' = None → Read r' s' = ∅).
Proof.
  intros Hnow Hnow2. split; [|split].
  - destruct (Read_Merge_leader s r h delta now Hnow) as (Hok & Hread & _).
    split; [done|]. intros k. rewrite Hread, lookup_apply_delta.
    unfold merge_key. destruct (delta !! k) as [v|]; [|done].
    destruct (decide (v = "")) as [->|Hne]; [done|].
    apply String.eqb_neq in Hne. by rewrite Hne.
  - intros Hempty.
    set (first := {[ "foo" := "bar"; "baz" := "biz" ]} : gmap string string).
    destruct (Read_Merge_leader s r h first now Hnow) as (Hok & Hread & _).
    assert (is_leader r h now2 (snd (Merge r h first now s)) = true) as Hl2
      by (by rewrite is_leader_Merge).
    destruct (Read_Merge_leader _ r h {[ "foo" := "" ]} now2 Hl2)
      as (Hok2 & Hread2 & _).
    destruct apply_delta_empty_nonempty as [E1 E2].
    rewrite Hok2, Hread2, Hok, Hread, Hempty. subst first. by rewrite E1, E2.
  - apply Read_absent.
Qed.

(** C5.  A merge by a holder that is not the valid leader of the resource
    fails with [NotLeader] and leaves the whole store, so every [Read], as
    it was. *)
Theorem Merge_rejects_non_leader s r h delta now :
  is_leader r h now s = false →
  fst (Merge r h delta now s) = Some NotLeader
  ∧ snd (Merge r h delta now s) = s
  ∧ ∀ r', Read r' (snd (Merge r h delta now s)) = Read r' s.
Proof.
  intros H. rewrite (Merge_not_leader s r h delta now H). by simpl.
Qed.

End leadership_properties.

Section leadership_witnesses.
Import leadership fixtures.

Example elected_claim :
  fst (Claim "wordpress" "wordpress/0" 10 0 empty_store) = inr (1%N, 10)
  ∧ Read "wordpress" elected = ∅.
Proof. split; by vm_compute. Qed.

Lemma Merge_Read_semantics_witness :
  is_leader "wordpress" "wordpress/0" 1 elected = true
  ∧ is_leader "wordpress" "wordpress/0" 2 elected = true
  ∧ Read "wordpress"
      (snd (Merge "wordpress" "wordpress/0"
              {[ "foo" := "bar"; "baz" := "biz" ]} 1 elected))
    = {[ "foo" := "bar"; "baz" := "biz" ]}
  ∧ Read "wordpress"
      (snd (Merge "wordpress" "wordpress/0" {[ "foo" := "" ]} 2
         (snd (Merge "wordpress" "wordpress/0"
                 {[ "foo" := "bar"; "baz" := "biz" ]} 1 elected))))
    = {[ "baz" := "biz" ]}.
Proof.
  assert (is_leader "wordpress" "wordpress/0" 1 elected = true) as H1
    by (vm_compute; reflexivity).
  assert (is_leader "wordpress" "wordpress/0" 2 elected = true) as H2
    by (vm_compute; reflexivity).
  assert (Read "wordpress" elected = ∅) as H0 by (vm_compute; reflexivity).
  destruct (Merge_Read_semantics elected "wordpress" "wordpress/0" ∅ 1 2 H1 H2)
    as (_ & Hscenario & _).
  destruct (Hscenario H0) as (_ & Hfirst & _ & Hsecond).
  exact (conj H1 (conj H2 (conj Hfirst Hsecond))).
Defined.

Lemma Merge_rejects_non_leader_witness :
  is_leader "wordpress" "wordpress/1" 1 elected = false
  ∧ fst (Merge "wordpress" "wordpress/1" {[ "foo" := "bar" ]} 1 elected)
    = Some NotLeader
  ∧ Read "wordpress"
      (snd (Merge "wordpress" "wordpress/1" {[ "foo" := "bar" ]} 1 elected))
    = Read "wordpress" elected.
Proof.
  assert (is_leader "wordpress" "wordpress/1" 1 elected = false) as H
    by (vm_compute; reflexivity).
  destruct (Merge_rejects_non_leader elected "wordpress" "wordpress/1"
              {[ "foo" := "bar" ]} 1 H) as (Herr & _ & Hread).
  exact (conj H (conj Herr (Hread "wordpress"))).
Defined.

End leadership_witnesses.

(* ===================================================================== *)
(** * Further properties: api/uniter StorageAccessor *)
(* ===================================================================== *)

Section uniter_coverage.
Import uniter.

Context {params_StorageAttachment APICaller StringsWatcher NotifyWatcher : Type}.
Context {UnitTagT StorageTagT : Type}.
Context (UnitTag_String : UnitTagT → string).
Context (StorageTag_String : StorageTagT → string).
Context (NewStringsWatcher :
  APICaller → StringsWatchResult → StringsWatcher).
Context (NewNotifyWatcher :
  APICaller → NotifyWatchResult → NotifyWatcher).

Local Abbreviation Accessor :=
  (@StorageAccessor params_StorageAttachment APICaller).
Local Abbreviation unit_args := (unit_args UnitTag_String).
Local Abbreviation attachment_args :=
  (attachment_args UnitTag_String StorageTag_String).

Lemma length_1_inv {T} (l : list T) :
  (length l =? 1)%nat = true → ∃ x, l = [x].
Proof. destruct l as [|x [|y l]]; try done. by exists x. Qed.

(** X6.  The two gated operations panic only on a malformed response: a
    panic happens exactly when the facade is at version 2 or later, the
    call returned no error, and the response does not hold one result.
    In particular indexing the results never panics. *)
Theorem panic_only_on_malformed_response
    (sa : Accessor) (storageTag : StorageTagT) (unitTag : UnitTagT)
    (log : list Call) :
  ((∃ v, fst (UnitStorageAttachments UnitTag_String sa unitTag log) = Panics v)
   ↔ 2 ≤ BestAPIVersion (facade sa)
     ∧ ∃ results,
         remote (facade sa) StorageAttachmentsResults log
           "UnitStorageAttachments" (unit_args unitTag) = (None, results)
         ∧ length (Results results) ≠ 1%nat)
  ∧ ((∃ v, fst (StorageAttachment UnitTag_String StorageTag_String
                  sa storageTag unitTag log) = Panics v)
   ↔ 2 ≤ BestAPIVersion (facade sa)
     ∧ ∃ results,
         remote (facade sa) StorageAttachmentResults log
           "StorageAttachments" (attachment_args storageTag unitTag)
           = (None, results)
         ∧ length (Results results) ≠ 1%nat).
Proof.
  unfold UnitStorageAttachments, StorageAttachment, bind, FacadeCall,
    uniter.unit_args, uniter.attachment_args.
  split.
  - destruct (Z.ltb_spec (BestAPIVersion (facade sa)) 2) as [Hv|Hv]; simpl.
    { split; [by intros [v ?]|]. intros [? _]. lia. }
    destruct (remote _ _ _ _ _) as [[err|] results]; simpl.
    { split; [by intros [v ?]|]. by intros (_ & res & ? & _). }
    destruct (length (Results results) =? 1)%nat eqn:Hlen; simpl.
    + destruct (length_1_inv _ Hlen) as [result Hres]. rewrite Hres; simpl.
      split.
      * intros [v Hp]. by destruct (SAs_Error result).
      * intros (_ & res & [= <-] & Hne). by rewrite Hres in Hne.
    + apply Nat.eqb_neq in Hlen. split; [|by eexists].
      intros _. split; [done|]. by exists results.
  - destruct (Z.ltb_spec (BestAPIVersion (facade sa)) 2) as [Hv|Hv]; simpl.
    { split; [by intros [v ?]|]. intros [? _]. lia. }
    destruct (remote _ _ _ _ _) as [[err|] results]; simpl.
    { split; [by intros [v ?]|]. by intros (_ & res & ? & _). }
    destruct (length (Results results) =? 1)%nat eqn:Hlen; simpl.
    + destruct (length_1_inv _ Hlen) as [result Hres]. rewrite Hres; simpl.
      split.
      * intros [v Hp]. by destruct (SA_Error result).
      * intros (_ & res & [= <-] & Hne). by rewrite Hres in Hne.
    + apply Nat.eqb_neq in Hlen. split; [|by eexists].
      intros _. split; [done|]. by exists results.
Qed.

(** X7.  The watch operations and the dead/remove operation never panic,
    whatever the remote end answers: they always return. *)
Theorem watch_and_remove_never_panic
    (sa : Accessor) (method : string)
    (storageTag : StorageTagT) (unitTag : UnitTagT) (log : list Call) :
  (∃ r, fst (WatchUnitStorageAttachments UnitTag_String NewStringsWatcher
               sa unitTag log) = Returns r)
  ∧ (∃ r, fst (WatchStorageAttachment UnitTag_String StorageTag_String
                 NewNotifyWatcher sa storageTag unitTag log) = Returns r)
  ∧ (∃ r, fst (ensureDeadOrRemoveStorageAttachment UnitTag_String
                 StorageTag_String sa method storageTag unitTag log)
          = Returns r).
Proof.
  unfold WatchUnitStorageAttachments, WatchStorageAttachment,
    ensureDeadOrRemoveStorageAttachment, bind, FacadeCall.
  split; [|split].
  - destruct (remote _ _ _ _ _) as [[err|] [[|result [|more]]]]; simpl;
      try (by eexists). destruct (SW_Error result); by eexists.
  - destruct (remote _ _ _ _ _) as [[err|] [[|result [|more]]]]; simpl;
      try (by eexists). destruct (NW_Error result); by eexists.
  - destruct (remote _ _ _ _ _) as [[err|] [[|result [|more]]]]; simpl;
      try (by eexists). destruct (ER_Error result); by eexists.
Qed.

(** X8.  Every operation makes at most one remote call, with the request
    name of its own and the one tag or tag pair it was given; the gated
    operations make none below version 2, the others make theirs at any
    version. *)
Theorem remote_calls_made
    (sa : Accessor) (storageTag : StorageTagT) (unitTag : UnitTagT)
    (log : list Call) :
  snd (UnitStorageAttachments UnitTag_String sa unitTag log)
    = (if BestAPIVersion (facade sa) <? 2 then log
       else called log "UnitStorageAttachments" (unit_args unitTag))
  ∧ snd (StorageAttachment UnitTag_String StorageTag_String
           sa storageTag unitTag log)
    = (if BestAPIVersion (facade sa) <? 2 then log
       else called log "StorageAttachments"
              (attachment_args storageTag unitTag))
  ∧ snd (WatchUnitStorageAttachments UnitTag_String NewStringsWatcher
           sa unitTag log)
    = called log "WatchUnitStorageAttachments" (unit_args unitTag)
  ∧ snd (WatchStorageAttachment UnitTag_String StorageTag_String
           NewNotifyWatcher sa storageTag unitTag log)
    = called log "WatchStorageAttachmentInfos"
        (attachment_args storageTag unitTag)
  ∧ snd (EnsureStorageAttachmentDead UnitTag_String StorageTag_String
           sa storageTag unitTag log)
    = called log "EnsureStorageAttachmentsDead"
        (attachment_args storageTag unitTag)
  ∧ snd (RemoveStorageAttachment UnitTag_String StorageTag_String
           sa storageTag unitTag log)
    = called log "RemoveStorageAttachments"
        (attachment_args storageTag unitTag).
Proof.
  unfold UnitStorageAttachments, StorageAttachment,
    WatchUnitStorageAttachments, WatchStorageAttachment,
    EnsureStorageAttachmentDead, RemoveStorageAttachment,
    ensureDeadOrRemoveStorageAttachment, bind, FacadeCall, called,
    uniter.unit_args, uniter.attachment_args.
  repeat split.
  - destruct (_ <? 2); [done|].
    destruct (remote _ _ _ _ _) as [[err|] [[|result [|more]]]]; simpl;
      try done. by destruct (SAs_Error result).
  - destruct (_ <? 2); [done|].
    destruct (remote _ _ _ _ _) as [[err|] [[|result [|more]]]]; simpl;
      try done. by destruct (SA_Error result).
  - destruct (remote _ _ _ _ _) as [[err|] [[|result [|more]]]]; simpl;
      try done. by destruct (SW_Error result).
  - destruct (remote _ _ _ _ _) as [[err|] [[|result [|more]]]]; simpl;
      try done. by destruct (NW_Error result).
  - destruct (remote _ _ _ _ _) as [[err|] [[|result [|more]]]]; simpl;
      try done. by destruct (ER_Error result).
  - destruct (remote _ _ _ _ _) as [[err|] [[|result [|more]]]]; simpl;
      try done. by destruct (ER_Error result).
Qed.

(** X9.  At version 2 or later the result of [StorageAttachment] follows
    the remote answer: a call error comes back traced, a single result
    gives its error or its attachment, any other number of results
    panics. *)
Theorem StorageAttachment_v2
    (sa : Accessor) (storageTag : StorageTagT) (unitTag : UnitTagT)
    (log : list Call) :
  2 ≤ BestAPIVersion (facade sa) →
  fst (StorageAttachment UnitTag_String StorageTag_String
         sa storageTag unitTag log)
    = match remote (facade sa) StorageAttachmentResults log
              "StorageAttachments" (attachment_args storageTag unitTag) with
      | (Some err, _) => Returns (inl (Trace err))
      | (None, {| Results := [result] |}) =>
          match SA_Error result with
          | Some e => Returns (inl (ServerError e))
          | None => Returns (inr (SA_Result result))
          end
      | (None, results) => Panics (expected1 (length (Results results)))
      end.
Proof.
  intros Hv. apply Z.ltb_ge in Hv.
  unfold StorageAttachment, bind, FacadeCall, uniter.attachment_args.
  rewrite Hv.
  destruct (remote _ _ _ _ _) as [[err|] [[|result [|more]]]]; simpl; try done.
  by destruct (SA_Error result).
Qed.

(** X10.  [WatchUnitStorageAttachments] returns a watcher exactly when the
    call succeeded with a single result that carries no error, and the
    watcher is then built from the raw caller and that result; a call
    error comes back as it is (not traced), a wrong number of results as
    an error value. *)
Theorem WatchUnitStorageAttachments_result
    (sa : Accessor) (unitTag : UnitTagT) (log : list Call) :
  fst (WatchUnitStorageAttachments UnitTag_String NewStringsWatcher
         sa unitTag log)
    = match remote (facade sa) StringsWatchResults log
              "WatchUnitStorageAttachments" (unit_args unitTag) with
      | (Some err, _) => Returns (inl err)
      | (None, {| Results := [result] |}) =>
          match SW_Error result with
          | Some e => Returns (inl (ServerError e))
          | None =>
              Returns (inr (NewStringsWatcher (RawAPICaller (facade sa)) result))
          end
      | (None, results) => Returns (inl (expected1 (length (Results results))))
      end.
Proof.
  unfold WatchUnitStorageAttachments, bind, FacadeCall, uniter.unit_args.
  destruct (remote _ _ _ _ _) as [[err|] [[|result [|more]]]]; simpl; try done.
  by destruct (SW_Error result).
Qed.

(** X11.  [WatchStorageAttachment] asks for "WatchStorageAttachmentInfos"
    and returns a watcher exactly when the call succeeded with a single
    result that carries no error; a call error comes back as it is, a
    wrong number of results as an error value. *)
Theorem WatchStorageAttachment_result
    (sa : Accessor) (storageTag : StorageTagT) (unitTag : UnitTagT)
    (log : list Call) :
  fst (WatchStorageAttachment UnitTag_String StorageTag_String
         NewNotifyWatcher sa storageTag unitTag log)
    = match remote (facade sa) NotifyWatchResults log
              "WatchStorageAttachmentInfos"
              (attachment_args storageTag unitTag) with
      | (Some err, _) => Returns (inl err)
      | (None, {| Results := [result] |}) =>
          match NW_Error result with
          | Some e => Returns (inl (ServerError e))
          | None =>
              Returns (inr (NewNotifyWatcher (RawAPICaller (facade sa)) result))
          end
      | (None, results) => Returns (inl (expected1 (length (Results results))))
      end.
Proof.
  unfold WatchStorageAttachment, bind, FacadeCall, uniter.attachment_args.
  destruct (remote _ _ _ _ _) as [[err|] [[|result [|more]]]]; simpl; try done.
  by destruct (NW_Error result).
Qed.

End uniter_coverage.

Section uniter_coverage_witnesses.
Import uniter fixtures.

Lemma StorageAttachment_v2_witness :
  2 ≤ BestAPIVersion (facade serving_accessor)
  ∧ fst (StorageAttachment tag_string tag_string serving_accessor
           "storage-data-0" "unit-wordpress-0" [])
    = Returns (inr "data/0").
Proof.
  assert (2 ≤ BestAPIVersion (facade serving_accessor)) as H by (simpl; lia).
  exact (conj H (StorageAttachment_v2 tag_string tag_string serving_accessor
                   "storage-data-0" "unit-wordpress-0" [] H)).
Defined.

End uniter_coverage_witnesses.

(* ===================================================================== *)
(** * Further properties: apiserver/client/destroy.go *)
(* ===================================================================== *)

Section client_coverage.
Import client.

Context {error Id Config Environ : Type}.
Context (Trace : error → error).
Context (environs_New : Config → error + Environ).
Context (StopInstances : Environ → list Id → option error).

Local Abbreviation Machine := (@Machine error Id).
Local Abbreviation State := (@State error Id Config).
Local Abbreviation Client := (@Client error Id Config).
Local Abbreviation instance_ids :=
  (λ machines : list Machine,
     List.map (λ m, fst (InstanceId m)) (List.filter stoppable machines)).

Lemma range_machines_app (before rest : list Machine) (acc : list Id) :
  range_machines (before ++ rest) acc
  = match range_machines before acc with
    | inl err => inl err
    | inr ids => range_machines rest ids
    end.
Proof.
  revert acc. induction before as [|m before IH]; intros acc; [done|].
  destruct m as [[|] [parent [|]] [[|] err] [id ierr]];
    cbn [app range_machines IsManager ParentId IsManual InstanceId snd];
    try apply IH.
  destruct err as [e|]; [done|]. destruct ierr as [e|]; apply IH.
Qed.

Lemma range_machines_no_abort (machines : list Machine) (acc : list Id) :
  Forall (λ m, abort_error m = None) machines →
  range_machines machines acc = inr (acc ++ instance_ids machines).
Proof.
  intros Hall. revert acc.
  induction Hall as [|m rest Hm _ IH]; intros acc.
  - simpl. by rewrite app_nil_r.
  - destruct m as [[|] [parent [|]] [[|] err] [id ierr]];
      cbn [range_machines List.filter List.map stoppable IsManager ParentId
           IsManual InstanceId fst snd negb andb];
      try apply IH.
    unfold abort_error in Hm; simpl in Hm. subst err.
    destruct ierr as [e|]; cbn [List.map InstanceId fst]; [apply IH|].
    rewrite IH. by rewrite <- app_assoc.
Qed.

(** X12.  [destroyInstances] gives up at the first machine whose
    [IsManual] answers an error (a machine that is no manager, no
    container and not reported manual): it returns that error and stops
    no instance, not even those of the machines before it. *)
Theorem destroyInstances_aborts
    (st : State) (before after : list Machine) (m : Machine) (err : error) :
  Forall (λ m, abort_error m = None) before →
  abort_error m = Some err →
  destroyInstances environs_New StopInstances st (before ++ m :: after)
    = (Some err, []).
Proof.
  intros Hbefore Hm. unfold destroyInstances.
  rewrite range_machines_app, (range_machines_no_abort _ _ Hbefore).
  destruct m as [[|] [parent [|]] [[|] e] instance];
    unfold abort_error in Hm; simpl in Hm; try done.
  subst e. reflexivity.
Qed.

(** X13.  When no machine makes the loop give up, [destroyInstances] works
    on the instance ids of the stoppable machines, in order: with none it
    returns nil without reading the environ configuration; otherwise it
    reads the configuration, opens the environ and returns what
    [StopInstances] answers, each failure on the way being returned with
    nothing stopped. *)
Theorem destroyInstances_without_abort
    (st : State) (machines : list Machine) :
  Forall (λ m, abort_error m = None) machines →
  destroyInstances environs_New StopInstances st machines
    = match instance_ids machines with
      | [] => (None, [])
      | ids =>
          match EnvironConfig st with
          | inl err => (Some err, [])
          | inr envcfg =>
              match environs_New envcfg with
              | inl err => (Some err, [])
              | inr env => (StopInstances env ids, [CallStopInstances ids])
              end
          end
      end.
Proof.
  intros Hall. unfold destroyInstances.
  rewrite (range_machines_no_abort _ _ Hall). simpl.
  by destruct (List.map _ _).
Qed.

Lemma destroyInstances_log (st : State) (machines : list Machine) :
  ∀ a, a ∈ snd (destroyInstances environs_New StopInstances st machines) →
       ∃ ids, a = CallStopInstances ids.
Proof.
  unfold destroyInstances. intros a.
  destruct (range_machines machines []) as [err|ids]; simpl;
    [by intros ?%elem_of_nil|].
  destruct (length ids =? 0)%nat; simpl; [by intros ?%elem_of_nil|].
  destruct (EnvironConfig st) as [err|envcfg]; simpl;
    [by intros ?%elem_of_nil|].
  destruct (environs_New envcfg) as [err|env]; simpl;
    [by intros ?%elem_of_nil|].
  intros ->%list_elem_of_singleton. by exists ids.
Qed.

(** X14.  [DestroyEnvironment] returns nil exactly when every step
    succeeded: the check allowed it, the environment was found and
    destroyed, the machines were listed, [destroyInstances] returned nil,
    and, for an environment other than the state server's, the documents
    were removed without error. *)
Theorem DestroyEnvironment_nil_iff (c : Client) :
  fst (DestroyEnvironment Trace environs_New StopInstances c) = None
  ↔ check_DestroyAllowed c = None
    ∧ ∃ env machines,
        state_Environment (api_state c) = inr env
        ∧ Destroy env = None
        ∧ AllMachines (api_state c) = inr machines
        ∧ fst (destroyInstances environs_New StopInstances
                 (api_state c) machines) = None
        ∧ (UUID env = ServerTag_Id env
           ∨ RemoveAllEnvironDocs (api_state c) = None).
Proof.
  unfold DestroyEnvironment.
  destruct (check_DestroyAllowed c) as [e|]; simpl;
    [split; [done|by intros [? _]]|].
  destruct (state_Environment (api_state c)) as [e|env]; simpl;
    [split; [done|by intros (_ & ? & ? & ? & _)]|].
  destruct (Destroy env) as [e|] eqn:HD; simpl.
  { split; [done|]. intros (_ & env' & ? & [= <-] & HD' & _). congruence. }
  destruct (AllMachines (api_state c)) as [e|machines]; simpl;
    [split; [done|by intros (_ & ? & ? & _ & _ & ? & _)]|].
  destruct (destroyInstances environs_New StopInstances (api_state c) machines)
    as [r stopped] eqn:HDI; simpl.
  destruct r as [e|]; simpl.
  { split; [done|].
    intros (_ & env' & machines' & _ & _ & [= <-] & Hnil & _).
    rewrite HDI in Hnil. done. }
  destruct (String.eqb_spec (UUID env) (ServerTag_Id env)) as [HU|HU]; simpl.
  - split; [|done]. intros _. split; [done|].
    exists env, machines. rewrite HDI. split_and!; try done. by left.
  - split.
    + intros Hdocs. split; [done|]. exists env, machines. rewrite HDI.
      split_and!; try done. right.
      by destruct (RemoveAllEnvironDocs (api_state c)).
    + intros (_ & env' & machines' & [= <-] & _ & _ & _ & [?|Hdocs]); [done|].
      by rewrite Hdocs.
Qed.

(** X15.  Whatever [DestroyEnvironment] does after [env.Destroy()] comes
    after it: a run that stops instances or removes the documents has
    called [Destroy] first and exactly once, and [Destroy] had succeeded. *)
Theorem DestroyEnvironment_destroys_first (c : Client) (a : Action) :
  a ∈ snd (DestroyEnvironment Trace environs_New StopInstances c) →
  a ≠ CallDestroy →
  ∃ env rest,
    state_Environment (api_state c) = inr env
    ∧ Destroy env = None
    ∧ snd (DestroyEnvironment Trace environs_New StopInstances c)
      = CallDestroy :: rest
    ∧ CallDestroy ∉ rest.
Proof.
  unfold DestroyEnvironment.
  destruct (check_DestroyAllowed c) as [e|]; simpl;
    [by intros ?%elem_of_nil|].
  destruct (state_Environment (api_state c)) as [e|env]; simpl;
    [by intros ?%elem_of_nil|].
  destruct (Destroy env) as [e|] eqn:HD; simpl;
    [by intros ->%list_elem_of_singleton|].
  destruct (AllMachines (api_state c)) as [e|machines]; simpl;
    [by intros ->%list_elem_of_singleton|].
  pose proof (destroyInstances_log (api_state c) machines) as Hlog.
  destruct (destroyInstances environs_New StopInstances (api_state c) machines)
    as [r stopped]; simpl in *.
  assert (CallDestroy ∉ stopped) as Hstopped.
  { intros Hin. by destruct (Hlog _ Hin) as [ids ?]. }
  assert (CallDestroy ∉ stopped ++ [CallRemoveAllEnvironDocs]) as Hdocs.
  { intros [Hin|Hin%list_elem_of_singleton]%elem_of_app; done. }
  intros _ _. exists env.
  destruct r as [e|]; simpl; [by eexists|].
  destruct (String.eqb (UUID env) (ServerTag_Id env)); simpl; by eexists.
Qed.

(** X2.  [DestroyEnvironment] leaves the world untouched (it calls neither
    [Destroy], [StopInstances] nor [RemoveAllEnvironDocs]) exactly when
    [DestroyAllowed] refuses or the environment cannot be read; its result
    is then that error, traced. *)
Theorem DestroyEnvironment_untouched_iff (c : Client) :
  (snd (DestroyEnvironment Trace environs_New StopInstances c) = []
   ↔ is_Some (check_DestroyAllowed c)
     ∨ ∃ err, state_Environment (api_state c) = inl err)
  ∧ match check_DestroyAllowed c, state_Environment (api_state c) with
    | Some err, _ | None, inl err =>
        DestroyEnvironment Trace environs_New StopInstances c
          = (Some (Trace err), [])
    | None, inr _ =>
        CallDestroy ∈ snd (DestroyEnvironment Trace environs_New StopInstances c)
    end.
Proof.
  unfold DestroyEnvironment.
  destruct (check_DestroyAllowed c) as [e|]; simpl.
  { split; [|done]. split; [|done]. intros _. left. by eexists. }
  destruct (state_Environment (api_state c)) as [e|env]; simpl.
  { split; [|done]. split; [|done]. intros _. right. by exists e. }
  assert (∀ rest : list (@Action Id), CallDestroy :: rest ≠ []) as Hne by done.
  destruct (Destroy env) as [e|]; simpl.
  { split; [|apply list_elem_of_here]. split; [done|].
    intros [[? [=]]|[? [=]]]. }
  destruct (AllMachines (api_state c)) as [e|machines]; simpl.
  { split; [|apply list_elem_of_here]. split; [done|].
    intros [[? [=]]|[? [=]]]. }
  destruct (destroyInstances environs_New StopInstances (api_state c) machines)
    as [[e|] stopped]; simpl.
  { split; [|apply list_elem_of_here]. split; [done|].
    intros [[? [=]]|[? [=]]]. }
  destruct (String.eqb (UUID env) (ServerTag_Id env)); simpl;
    (split; [|apply list_elem_of_here]); (split; [done|]);
    intros [[? [=]]|[? [=]]].
Qed.

(** X20.  Every error [DestroyEnvironment] returns has gone through
    [errors.Trace]. *)
Theorem DestroyEnvironment_errors_traced (c : Client) (err : error) :
  fst (DestroyEnvironment Trace environs_New StopInstances c) = Some err →
  ∃ cause, err = Trace cause.
Proof.
  unfold DestroyEnvironment.
  destruct (check_DestroyAllowed c) as [e|]; simpl;
    [intros [= <-]; by eexists|].
  destruct (state_Environment (api_state c)) as [e|env]; simpl;
    [intros [= <-]; by eexists|].
  destruct (Destroy env) as [e|]; simpl; [intros [= <-]; by eexists|].
  destruct (AllMachines (api_state c)) as [e|machines]; simpl;
    [intros [= <-]; by eexists|].
  destruct (destroyInstances environs_New StopInstances (api_state c) machines)
    as [[e|] stopped]; simpl; [intros [= <-]; by eexists|].
  destruct (String.eqb (UUID env) (ServerTag_Id env)); simpl; [done|].
  destruct (RemoveAllEnvironDocs (api_state c)) as [e|]; simpl; [|done].
  intros [= <-]. by eexists.
Qed.

End client_coverage.

Section client_coverage_witnesses.
Import client fixtures.

Lemma destroyInstances_aborts_witness :
  destroyInstances open_environ stop_all hosted_state
    (fleet ++ unknown_machine :: fleet)
  = (Some "cannot tell", []).
Proof.
  apply (destroyInstances_aborts open_environ stop_all hosted_state
           fleet fleet unknown_machine "cannot tell").
  - repeat constructor.
  - reflexivity.
Defined.

Lemma destroyInstances_without_abort_witness :
  destroyInstances open_environ stop_all hosted_state fleet
  = (None, [CallStopInstances ["i-4"; "i-5"]]).
Proof.
  apply (destroyInstances_without_abort open_environ stop_all hosted_state
           fleet).
  repeat constructor.
Defined.

Lemma DestroyEnvironment_destroys_first_witness :
  ∃ env rest,
    state_Environment (api_state hosted_client) = inr env
    ∧ Destroy env = None
    ∧ snd (DestroyEnvironment trace open_environ stop_all hosted_client)
      = CallDestroy :: rest
    ∧ CallDestroy ∉ rest.
Proof.
  apply (DestroyEnvironment_destroys_first trace open_environ stop_all
           hosted_client (CallStopInstances ["i-4"; "i-5"])).
  - vm_compute. apply list_elem_of_further, list_elem_of_here.
  - discriminate.
Defined.

Lemma DestroyEnvironment_errors_traced_witness :
  fst (DestroyEnvironment trace open_environ stop_all blocked_client)
    = Some "traced: destroy-environment is blocked"
  ∧ ∃ cause, "traced: destroy-environment is blocked" = trace cause.
Proof.
  assert (fst (DestroyEnvironment trace open_environ stop_all blocked_client)
            = Some "traced: destroy-environment is blocked") as H
    by reflexivity.
  exact (conj H (DestroyEnvironment_errors_traced trace open_environ stop_all
                   blocked_client _ H)).
Defined.

End client_coverage_witnesses.

(* ===================================================================== *)
(** * Properties: package cloudinit, userdata configuration *)
(* ===================================================================== *)

Section userdata_properties.
Import userdata.

Context {error OSType MachineTag Renderer AgentConfig Binary Number : Type}.
Context `{!EqDecision OSType}.
Context (Ubuntu Windows : OSType).
Context (GetOSFromSeries : string → error + OSType).
Context (NewMachineTag : string → MachineTag).
Context (Tag_String : MachineTag → string).
Context (Trace : error → error).
Context (Annotate : error → string → error).
Context (NotSupportedf : string → error).
Context (FromSlash : Renderer → string → string).
Context (shquote : string → string).
Context (Binary_String : Binary → string).
Context (Binary_Number : Binary → Number).
Context (LogProgressCmd : string → list string → string).
Context (AgentServiceName : string).
Context (SetValue : AgentConfig → string → string → AgentConfig).
Context (WriteCommands : AgentConfig → Renderer → error + list string).

Local Abbreviation MachineConfig :=
  (@MachineConfig error MachineTag Renderer AgentConfig Binary Number).
Local Abbreviation Config := (@Config Renderer).
Local Abbreviation baseConfigure :=
  (@baseConfigure error OSType MachineTag Renderer AgentConfig Binary Number).
Local Abbreviation NewUserdataConfig :=
  (NewUserdataConfig Ubuntu Windows GetOSFromSeries NewMachineTag NotSupportedf).
Local Abbreviation toolsSymlinkCommand :=
  (toolsSymlinkCommand Windows FromSlash shquote Binary_String).
Local Abbreviation addMachineAgentToBoot :=
  (addMachineAgentToBoot Windows Tag_String Trace Annotate FromSlash shquote
     Binary_String LogProgressCmd).
Local Abbreviation addAgentInfo :=
  (addAgentInfo Trace Annotate Binary_Number AgentServiceName SetValue
     WriteCommands).

(** X16.  [NewUserdataConfig] supports Ubuntu and Windows only.  It
    returns a configuration exactly when the series maps to one of the
    two, the Ubuntu kind for Ubuntu and the Windows kind for Windows, and
    the configuration holds the machine configuration and the [conf] it
    was given, the tag of the machine id and the operating system.  Its
    errors are that of [GetOSFromSeries], unchanged, or not-supported for
    any other operating system. *)
Theorem NewUserdataConfig_supported (m : MachineConfig) (cf : Config) :
  (∀ cfg, NewUserdataConfig m cf = inr cfg ↔
     ∃ o, GetOSFromSeries (Series m) = inr o
          ∧ ((o = Ubuntu
              ∧ cfg = ubuntuConfigure
                        {| tag := NewMachineTag (MachineId m); mcfg := m;
                           conf := cf; os := o |})
             ∨ (o ≠ Ubuntu ∧ o = Windows
                ∧ cfg = windowsConfigure
                          {| tag := NewMachineTag (MachineId m); mcfg := m;
                             conf := cf; os := o |})))
  ∧ (∀ err, NewUserdataConfig m cf = inl err ↔
       GetOSFromSeries (Series m) = inl err
       ∨ ∃ o, GetOSFromSeries (Series m) = inr o
              ∧ o ≠ Ubuntu ∧ o ≠ Windows
              ∧ err = NotSupportedf ("OS " +:+ Series m)).
Proof.
  unfold userdata.NewUserdataConfig.
  destruct (GetOSFromSeries (Series m)) as [e|o]; simpl.
  { split; intros x; split; try done.
    - by intros (o & ? & _).
    - intros [= ->]. by left.
    - intros [[= ->]|(o & ? & _)]; done. }
  destruct (decide (o = Ubuntu)) as [HU|HU];
    [|destruct (decide (o = Windows)) as [HW|HW]].
  - split; intros x; split.
    + intros [= <-]. exists o. split; [done|]. by left.
    + intros (o' & [= <-] & [[_ ->]|(? & _)]); done.
    + done.
    + intros [?|(o' & [= <-] & ? & _)]; done.
  - split; intros x; split.
    + intros [= <-]. exists o. split; [done|]. by right.
    + intros (o' & [= <-] & [[? _]|(_ & _ & ->)]); done.
    + done.
    + intros [?|(o' & [= <-] & _ & ? & _)]; done.
  - split; intros x; split.
    + done.
    + intros (o' & [= <-] & [[? _]|(_ & ? & _)]); done.
    + intros [= <-]. right. by exists o.
    + intros [?|(o' & [= <-] & _ & _ & ->)]; done.
Qed.

(** X17.  [addMachineAgentToBoot] only ever appends to [conf].  It returns
    nil exactly when the service and both its command lists were obtained,
    and has then added, in this order, the tools symlink script, the
    progress message and the install commands followed by the start
    commands.  When it returns an error, [conf] is untouched if the
    service could not be made, and otherwise holds the symlink script
    alone. *)
Theorem addMachineAgentToBoot_conf (c : baseConfigure) :
  ShellRenderer (snd (addMachineAgentToBoot c)) = ShellRenderer (conf c)
  ∧ match fst (addMachineAgentToBoot c) with
    | None =>
        ∃ svc install start,
          initService (mcfg c) (ShellRenderer (conf c)) = inr svc
          ∧ InstallCommands svc = inr install
          ∧ StartCommands svc = inr start
          ∧ added (snd (addMachineAgentToBoot c))
            = added (conf c)
              ++ [ AddScripts
                     [toolsSymlinkCommand c
                        (toolsDir (mcfg c) (ShellRenderer (conf c)))];
                   AddRunCmd
                     (LogProgressCmd "Starting Juju machine agent (%s)"
                        [MachineAgentServiceName (mcfg c)]);
                   AddScripts (install ++ start) ]
    | Some _ =>
        ((∃ err, initService (mcfg c) (ShellRenderer (conf c)) = inl err)
         ∧ snd (addMachineAgentToBoot c) = conf c)
        ∨ ((∃ svc, initService (mcfg c) (ShellRenderer (conf c)) = inr svc
                   ∧ ((∃ err, InstallCommands svc = inl err)
                      ∨ (∃ err, StartCommands svc = inl err)))
           ∧ added (snd (addMachineAgentToBoot c))
             = added (conf c)
               ++ [ AddScripts
                      [toolsSymlinkCommand c
                         (toolsDir (mcfg c) (ShellRenderer (conf c)))] ])
    end.
Proof.
  unfold userdata.addMachineAgentToBoot.
  destruct (initService (mcfg c) (ShellRenderer (conf c))) as [e|svc]; simpl.
  { split; [done|]. left. split; [by exists e|done]. }
  destruct (InstallCommands svc) as [e|install] eqn:HI; simpl.
  { split; [done|]. right. split; [|done]. exists svc. split; [done|].
    left. by exists e. }
  destruct (StartCommands svc) as [e|start] eqn:HS; simpl.
  { split; [done|]. right. split; [|done]. exists svc. split; [done|].
    right. by exists e. }
  split; [done|]. exists svc, install, start.
  split_and!; try done. by rewrite <- !app_assoc.
Qed.

(** X18.  [addAgentInfo] adds the write commands to [conf] only when it
    succeeds.  The configuration it returns is the one [agentConfig] gave
    with the agent service name set, and the commands added are those
    written from that updated configuration; on either error [conf] is
    left as it was. *)
Theorem addAgentInfo_conf (c : baseConfigure) :
  match fst (addAgentInfo c) with
  | inr acfg' =>
      ∃ acfg cmds,
        agentConfig (mcfg c) (tag c) (Binary_Number (Tools_Version (mcfg c)))
          = inr acfg
        ∧ acfg' = SetValue acfg AgentServiceName
                    (MachineAgentServiceName (mcfg c))
        ∧ WriteCommands acfg' (ShellRenderer (conf c)) = inr cmds
        ∧ snd (addAgentInfo c) = conf_add (AddScripts cmds) (conf c)
  | inl err =>
      snd (addAgentInfo c) = conf c
      ∧ ((∃ e, agentConfig (mcfg c) (tag c)
                 (Binary_Number (Tools_Version (mcfg c))) = inl e
               ∧ err = Trace e)
         ∨ (∃ acfg e,
              agentConfig (mcfg c) (tag c)
                (Binary_Number (Tools_Version (mcfg c))) = inr acfg
              ∧ WriteCommands
                  (SetValue acfg AgentServiceName
                     (MachineAgentServiceName (mcfg c)))
                  (ShellRenderer (conf c)) = inl e
              ∧ err = Annotate e "failed to write commands"))
  end.
Proof.
  unfold userdata.addAgentInfo.
  destruct (agentConfig _ _ _) as [e|acfg]; simpl.
  { split; [done|]. left. by exists e. }
  destruct (WriteCommands _ _) as [e|cmds] eqn:HW; simpl.
  { split; [done|]. right. by exists acfg, e. }
  by exists acfg, cmds.
Qed.

End userdata_properties.

(* ===================================================================== *)
(** * Further properties: container/storage.go *)
(* ===================================================================== *)

Section container_coverage.
Import container.

Variable Loop : ProviderType.

Lemma range_volumes_false (volumes : list VolumeParams) :
  range_volumes Loop false volumes
  = existsb (λ v, String.eqb (Provider v) Loop) volumes.
Proof.
  induction volumes as [|v rest IH]; [done|]. simpl.
  destruct (String.eqb (Provider v) Loop); [done|]. exact IH.
Qed.

(** X19.  The mount permission of a list of volumes is the disjunction of
    the permissions of its parts, and does not depend on the order of the
    volumes. *)
Theorem NewStorageConfig_app_perm (a b : list VolumeParams) :
  AllowMount (NewStorageConfig Loop (a ++ b))
    = AllowMount (NewStorageConfig Loop a)
      || AllowMount (NewStorageConfig Loop b)
  ∧ AllowMount (NewStorageConfig Loop (b ++ a))
    = AllowMount (NewStorageConfig Loop (a ++ b))
  ∧ AllowMount (NewStorageConfig Loop (reverse a))
    = AllowMount (NewStorageConfig Loop a).
Proof.
  unfold NewStorageConfig; simpl. rewrite !range_volumes_false.
  rewrite !existsb_app. split; [done|]. split; [apply orb_comm|].
  induction a as [|v rest IH]; [done|].
  rewrite reverse_cons, existsb_app, IH. simpl.
  by rewrite orb_false_r, orb_comm.
Qed.

End container_coverage.
